(** * AI Image Stylizer: the Generation Client and the Application Shell

    A shallow embedding of [services/geminiService.ts] and of the [App]
    component.  Handlers are computations in a small monad over the
    component's store: they read and write the React state, may throw, and
    emit the effects they perform (state updates, calls to the generation
    service, file reads, console output) in the order they perform them.
    An [await] is a call to the environment, which answers at once; a
    handler therefore runs to completion. *)

From Stdlib Require Import String Ascii List ZArith Lia Bool Arith.
Import ListNotations.
Open Scope string_scope.

(** ** JavaScript strings

    Strings are sequences of 8-bit characters; the line terminators that the
    regular expression dot excludes are therefore LF and CR. *)

Module Js.

(** The double quote character, as it appears inside a template literal. *)
Definition dquote : string := String "034"%char EmptyString.

(** [s.split(sep)] for a one-character separator: every occurrence
    separates, and the result is never empty. *)
Fixpoint split (sep : ascii) (s : string) : list string :=
  match s with
  | EmptyString => [EmptyString]
  | String c r =>
      if Ascii.eqb c sep then EmptyString :: split sep r
      else match split sep r with
           | h :: t => String c h :: t
           | [] => [String c EmptyString]
           end
  end.

(** [parts.join(sep)]. *)
Fixpoint join (sep : ascii) (l : list string) : string :=
  match l with
  | [] => EmptyString
  | [h] => h
  | h :: t => h ++ String sep (join sep t)
  end.

Definition is_line_terminator (c : ascii) : bool :=
  Ascii.eqb c "010"%char || Ascii.eqb c "013"%char.

(** The tail [(.*?);] of the pattern, anchored at the start of [s]: the
    lazy group takes the characters up to the first semicolon, and fails
    at a line terminator or at the end of the string. *)
Fixpoint lazy_group_then_semicolon (s : string) : option string :=
  match s with
  | EmptyString => None
  | String c r =>
      if Ascii.eqb c ";"%char then Some EmptyString
      else if is_line_terminator c then None
      else option_map (String c) (lazy_group_then_semicolon r)
  end.

(** [s.match(/:(.*?);/)], reduced to its first capture group: the leftmost
    colon from which the rest of the pattern matches. *)
Fixpoint match_colon_group_semicolon (s : string) : option string :=
  match s with
  | EmptyString => None
  | String c r =>
      if Ascii.eqb c ":"%char then
        match lazy_group_then_semicolon r with
        | Some g => Some g
        | None => match_colon_group_semicolon r
        end
      else match_colon_group_semicolon r
  end.

(** Truthiness of a [string | null] value. *)
Definition truthy (v : option string) : bool :=
  match v with
  | Some (String _ _) => true
  | _ => false
  end.

(** A thrown value: an [Error] with its message, or anything else. *)
Inductive Thrown : Type :=
| JsError (message : string)
| JsOther.

End Js.
Import Js.

(** ** The generation service's request and response *)

Module Genai.

Inductive Modality : Type := IMAGE | TEXT.

Inductive RequestPart : Type :=
| InlineDataPart (data : string) (mimeType : string)
| TextPart (text : string).

Record Request : Type := {
  model : string;
  contents_parts : list RequestPart;
  responseModalities : list Modality
}.

Record InlineData : Type := {
  data : option string;
  mimeType : option string
}.

Record Part : Type := {
  inlineData : option InlineData;
  part_text : option string
}.

Record Content : Type := { parts : option (list Part) }.

Record Candidate : Type := { content : option Content }.

(** [text] is the response's own accessor; the client only reads it. *)
Record Response : Type := {
  candidates : option (list Candidate);
  text : option string
}.

(** What the awaited [generateContent] call does. *)
Inductive Reply : Type :=
| Resolves (response : Response)
| Rejects (reason : Thrown).

End Genai.

(** ** The component's store *)

Record File : Type := {
  name : string;
  size : Z
}.

Record ReferenceImage : Type := {
  file : File;
  previewUrl : string
}.

Record AppState : Type := {
  prompt : string;
  referenceImage : option ReferenceImage;
  generatedImage : option string;
  isLoading : bool;
  error : option string
}.

(** The five state variables and the value of the file input behind
    [fileInputRef] ([None] when the ref is null). *)
Record Store : Type := {
  ui : AppState;
  fileInputRef : option string
}.

Inductive Effect : Type :=
| SetState (s : AppState)
| GenerateContent (request : Genai.Request)
| ReadAsDataURL (f : File)
| ConsoleError (e : Thrown).

(** ** The monad of handlers *)

Inductive Completion (A : Type) : Type :=
| Normal (value : A)
| Throw (reason : Thrown).
Arguments Normal {A} value.
Arguments Throw {A} reason.

Definition M (A : Type) : Type := Store -> Completion A * Store * list Effect.

Definition ret {A} (a : A) : M A := fun st => (Normal a, st, []).

Definition bind {A B} (m : M A) (k : A -> M B) : M B :=
  fun st =>
    match m st with
    | (Normal a, st1, l1) =>
        match k a st1 with
        | (r, st2, l2) => (r, st2, (l1 ++ l2)%list)
        end
    | (Throw e, st1, l1) => (Throw e, st1, l1)
    end.

Definition throw {A} (e : Thrown) : M A := fun st => (Throw e, st, []).

(** [try { body } catch (err) { handler }] *)
Definition try_catch {A} (body : M A) (handler : Thrown -> M A) : M A :=
  fun st =>
    match body st with
    | (Normal a, st1, l1) => (Normal a, st1, l1)
    | (Throw e, st1, l1) =>
        match handler e st1 with
        | (r, st2, l2) => (r, st2, (l1 ++ l2)%list)
        end
    end.

(** [try { body } finally { fin }] *)
Definition try_finally {A} (body : M A) (fin : M unit) : M A :=
  fun st =>
    match body st with
    | (r, st1, l1) =>
        match fin st1 with
        | (Normal _, st2, l2) => (r, st2, (l1 ++ l2)%list)
        | (Throw e, st2, l2) => (Throw e, st2, (l1 ++ l2)%list)
        end
    end.

Declare Scope handler_scope.
Delimit Scope handler_scope with handler.
Notation "x <- m ;; k" := (bind m (fun x => k))
  (at level 100, m at next level, right associativity) : handler_scope.
Notation "m ;; k" := (bind m (fun _ => k))
  (at level 100, right associativity) : handler_scope.
Open Scope handler_scope.

Definition emit (e : Effect) : M unit := fun st => (Normal tt, st, [e]).

Definition setState (f : AppState -> AppState) : M unit :=
  fun st =>
    let s := f (ui st) in
    (Normal tt, {| ui := s; fileInputRef := fileInputRef st |}, [SetState s]).

Definition setPrompt (v : string) : M unit :=
  setState (fun s => {| prompt := v; referenceImage := referenceImage s;
                        generatedImage := generatedImage s;
                        isLoading := isLoading s; error := error s |}).

Definition setReferenceImage (v : option ReferenceImage) : M unit :=
  setState (fun s => {| prompt := prompt s; referenceImage := v;
                        generatedImage := generatedImage s;
                        isLoading := isLoading s; error := error s |}).

Definition setGeneratedImage (v : option string) : M unit :=
  setState (fun s => {| prompt := prompt s; referenceImage := referenceImage s;
                        generatedImage := v;
                        isLoading := isLoading s; error := error s |}).

Definition setIsLoading (v : bool) : M unit :=
  setState (fun s => {| prompt := prompt s; referenceImage := referenceImage s;
                        generatedImage := generatedImage s;
                        isLoading := v; error := error s |}).

Definition setError (v : option string) : M unit :=
  setState (fun s => {| prompt := prompt s; referenceImage := referenceImage s;
                        generatedImage := generatedImage s;
                        isLoading := isLoading s; error := v |}).

Definition console_error (e : Thrown) : M unit := emit (ConsoleError e).

Definition readAsDataURL (f : File) : M unit := emit (ReadAsDataURL f).

Definition outcome {A} (r : Completion A * Store * list Effect) : Completion A :=
  fst (fst r).
Definition store_of {A} (r : Completion A * Store * list Effect) : Store :=
  snd (fst r).
Definition effects {A} (r : Completion A * Store * list Effect) : list Effect :=
  snd r.
Definition state_of {A} (r : Completion A * Store * list Effect) : AppState :=
  ui (store_of r).

(** ** services/geminiService.ts *)

Section GenerationClient.

Import Genai.

(** The external service: what [ai.models.generateContent] answers. *)
Variable service : Request -> Reply.

Definition generateContent (request : Request) : M Response :=
  fun st =>
    match service request with
    | Resolves response => (Normal response, st, [GenerateContent request])
    | Rejects reason => (Throw reason, st, [GenerateContent request])
    end.

(** The loop over [response.candidates[0].content.parts]: the payload of
    the first part whose [inlineData.data] is truthy. *)
Fixpoint first_inline_data (ps : list Part) : option string :=
  match ps with
  | [] => None
  | part :: rest =>
      match inlineData part with
      | Some d =>
          if truthy (data d) then data d else first_inline_data rest
      | None => first_inline_data rest
      end
  end.

(** The guarded scan: candidates present and non-empty, the first one with
    content and parts. *)
Definition image_of_response (response : Response) : option string :=
  match candidates response with
  | Some (c0 :: _) =>
      match content c0 with
      | Some ct =>
          match parts ct with
          | Some ps => first_inline_data ps
          | None => None
          end
      | None => None
      end
  | _ => None
  end.

Definition text_instead_of_image (textResponse : string) : string :=
  "API returned text instead of an image: " ++ dquote
    ++ substring 0 100 textResponse ++ "..." ++ dquote.

Definition no_image_generated : string :=
  "No image was generated in the API response. The response may have been blocked or empty.".

Definition editImageWithReference
    (prompt base64ImageData mimeType : string) : M string :=
  try_catch
    (response <- generateContent
                   {| model := "gemini-2.5-flash-image-preview";
                      contents_parts :=
                        [InlineDataPart base64ImageData mimeType;
                         TextPart prompt];
                      responseModalities := [IMAGE; TEXT] |} ;;
     match image_of_response response with
     | Some payload => ret payload
     | None =>
         let textResponse := text response in
         if truthy textResponse then
           match textResponse with
           | Some t => throw (JsError (text_instead_of_image t))
           | None => throw (JsError no_image_generated)
           end
         else throw (JsError no_image_generated)
     end)
    (fun error =>
       console_error error ;;
       match error with
       | JsError message => throw (JsError ("Gemini API Error: " ++ message))
       | JsOther =>
           throw (JsError
             "An unknown error occurred while communicating with the Gemini API.")
       end).

(** ** The App component's handlers *)

Definition MAX_FILE_SIZE : Z := 4 * 1024 * 1024.

Definition handleImageChange (files0 : option File) : M unit :=
  match files0 with
  | Some f =>
      if (MAX_FILE_SIZE <? size f)%Z then
        setError (Some "File is too large. Please upload an image under 4MB.")
      else readAsDataURL f
  | None => ret tt
  end.

(** The two callbacks installed on the reader. *)
Definition reader_onloadend (f : File) (result : string) : M unit :=
  setReferenceImage (Some {| file := f; previewUrl := result |}) ;;
  setError None.

Definition reader_onerror : M unit :=
  setError (Some "Failed to read the image file.").

Definition clearReferenceImage : M unit :=
  setReferenceImage None ;;
  fun st =>
    match fileInputRef st with
    | Some _ => (Normal tt, {| ui := ui st; fileInputRef := Some "" |}, [])
    | None => (Normal tt, st, [])
    end.

(** The callback closes over [prompt] and [referenceImage]. *)
Definition handleGenerateClick
    (prompt : string) (referenceImage : option ReferenceImage) : M unit :=
  match referenceImage with
  | None => setError (Some "Please upload a reference image first.")
  | Some img =>
      setIsLoading true ;;
      setError None ;;
      setGeneratedImage None ;;
      try_finally
        (try_catch
           (let parts := split ","%char (previewUrl img) in
            if negb (List.length parts =? 2)%nat then
              throw (JsError "Invalid image data URL format.")
            else
              let base64Data := nth 1 parts "" in
              let mimeTypeMatch :=
                match_colon_group_semicolon (nth 0 parts "") in
              if negb (truthy mimeTypeMatch) then
                throw (JsError "Could not determine image MIME type.")
              else
                let mimeType :=
                  match mimeTypeMatch with Some m => m | None => "" end in
                resultBase64 <-
                  editImageWithReference prompt base64Data mimeType ;;
                setGeneratedImage
                  (Some ("data:image/jpeg;base64," ++ resultBase64)))
           (fun err =>
              console_error err ;;
              setError (Some (match err with
                              | JsError message => message
                              | JsOther => "An unknown error occurred."
                              end))))
        (setIsLoading false)
  end.

(** A click on the button: the rendered callback holds the current
    prompt and reference image. *)
Definition generate : M unit :=
  fun st => handleGenerateClick (prompt (ui st)) (referenceImage (ui st)) st.

End GenerationClient.

(** ** Operations of the user and of the environment *)

Definition INITIAL_PROMPT : string :=
  "A beautiful young woman with long dark hair, featuring the exact facial features and structure from the reference image. She is wearing a loose-fitting, oversized orange linen button-down shirt with the top buttons open, and matching wide-leg pink linen trousers. She is seated gracefully on a dark wooden backless stool, facing slightly towards the camera. Her left leg is bent at the knee with her foot flat on the floor, and her right leg is crossed over her left. Her left arm is casually draped over her right knee, with her fingers gently intertwined, and her right arm is resting by her side, with her hand on her lap. She has a subtle, engaging gaze directly at the viewer. The background is a plain, textured, dark olive green or earthy brown wall, creating a simple, studio-like setting. The lighting is soft and diffused from the front-side, highlighting her features and the texture of her clothing, creating gentle shadows and even illumination. The photo is a realistic, high-resolution three-quarter body shot, with a slightly off-center composition and a soft background blur as if taken with a 85mm prime lens at f/2.8.".

(** The values of the [useState] and [useRef] calls at the first render. *)
Definition initial_state : AppState :=
  {| prompt := INITIAL_PROMPT; referenceImage := None;
     generatedImage := None; isLoading := false; error := None |}.

Definition initial_store : Store :=
  {| ui := initial_state; fileInputRef := Some "" |}.

(** One event of a session.  A file selection starts a read whose callbacks
    the browser fires later; a click on generate carries the answer the
    service gives to that attempt. *)
Inductive Event : Type :=
| ImageChange (files0 : option File)
| ReaderLoadEnd (f : File) (result : string)
| ReaderError
| ClearReferenceImage
| PromptChange (value : string)
| GenerateClick (service : Genai.Request -> Genai.Reply).

Definition dispatch (e : Event) : M unit :=
  match e with
  | ImageChange files0 => handleImageChange files0
  | ReaderLoadEnd f result => reader_onloadend f result
  | ReaderError => reader_onerror
  | ClearReferenceImage => clearReferenceImage
  | PromptChange value => setPrompt value
  | GenerateClick service => generate service
  end.

Fixpoint run_events (es : list Event) (st : Store) : Store :=
  match es with
  | [] => st
  | e :: rest => run_events rest (store_of (dispatch e st))
  end.

(** The states a handler goes through: the state after each of its effects. *)
Fixpoint states_during (s : AppState) (l : list Effect) : list AppState :=
  match l with
  | [] => []
  | SetState s' :: rest => s' :: states_during s' rest
  | _ :: rest => s :: states_during s rest
  end.

Fixpoint requests (l : list Effect) : list Genai.Request :=
  match l with
  | [] => []
  | GenerateContent r :: rest => r :: requests rest
  | _ :: rest => requests rest
  end.

Fixpoint reads (l : list Effect) : list File :=
  match l with
  | [] => []
  | ReadAsDataURL f :: rest => f :: reads rest
  | _ :: rest => reads rest
  end.


(** The output panel as the component renders it: each conditional block
    of the JSX, with the value it displays. *)
Record OutputPanel : Type := {
  spinner : bool;
  error_box : option string;
  result_image : option string;
  placeholder : bool
}.

Definition render (s : AppState) : OutputPanel :=
  {| spinner := isLoading s;
     error_box := if truthy (error s) then error s else None;
     result_image :=
       if negb (isLoading s) && negb (truthy (error s))
          && truthy (generatedImage s)
       then generatedImage s else None;
     placeholder :=
       negb (isLoading s) && negb (truthy (error s))
       && negb (truthy (generatedImage s)) |}.

(** ** The spec's reading of two steps, for comparison with the code *)

Module Spec.

Import Genai.

(** Splitting on the first separator only: the text before it and the
    whole text after it, or the string itself when there is none. *)
Fixpoint split_on_first (sep : ascii) (s : string) : list string :=
  match s with
  | EmptyString => [EmptyString]
  | String c r =>
      if Ascii.eqb c sep then [EmptyString; r]
      else match split_on_first sep r with
           | h :: t => String c h :: t
           | [] => [String c EmptyString]
           end
  end.

Definition part_has_payload (p : Part) : bool :=
  match inlineData p with
  | Some d => truthy (data d)
  | None => false
  end.

Definition candidate_has_payload (c : Candidate) : bool :=
  match content c with
  | Some ct =>
      match parts ct with
      | Some ps => existsb part_has_payload ps
      | None => false
      end
  | None => false
  end.

(** At least one candidate whose content parts include an inline-data
    part with a non-empty payload. *)
Definition some_candidate_has_payload (r : Response) : bool :=
  match candidates r with
  | Some cs => existsb candidate_has_payload cs
  | None => false
  end.

(** No inline-data part anywhere in the response. *)
Definition no_inline_data_part (r : Response) : Prop :=
  forall cs c ct ps p,
    candidates r = Some cs -> In c cs ->
    content c = Some ct -> parts ct = Some ps -> In p ps ->
    inlineData p = None.

End Spec.

(** ** Sample data and auxiliary definitions *)

(** The number of occurrences of a character in a string. *)
Fixpoint occurrences (c : ascii) (s : string) : nat :=
  match s with
  | EmptyString => 0
  | String a r => (if Ascii.eqb a c then 1 else 0) + occurrences c r
  end.

(** The request the client builds from its three arguments. *)
Definition request_of (prompt base64ImageData mimeType : string) : Genai.Request :=
  {| Genai.model := "gemini-2.5-flash-image-preview";
     Genai.contents_parts :=
       [Genai.InlineDataPart base64ImageData mimeType; Genai.TextPart prompt];
     Genai.responseModalities := [Genai.IMAGE; Genai.TEXT] |}.

Definition sample_file : File := {| name := "photo.png"; size := 2048 |}.

Definition sample_image : ReferenceImage :=
  {| file := sample_file; previewUrl := "data:image/png;base64,AAAA" |}.

Definition sample_store : Store :=
  {| ui := {| prompt := "a portrait"; referenceImage := Some sample_image;
              generatedImage := None; isLoading := false; error := None |};
     fileInputRef := None |}.

Definition image_response (payload : string) : Genai.Response :=
  {| Genai.candidates :=
       Some [ {| Genai.content :=
                   Some {| Genai.parts :=
                     Some [ {| Genai.inlineData :=
                                 Some {| Genai.data := Some payload;
                                         Genai.mimeType := Some "image/png" |};
                               Genai.part_text := None |} ] |} |} ];
     Genai.text := None |}.

Definition text_response (t : string) : Genai.Response :=
  {| Genai.candidates :=
       Some [ {| Genai.content :=
                   Some {| Genai.parts :=
                     Some [ {| Genai.inlineData := None;
                               Genai.part_text := Some t |} ] |} |} ];
     Genai.text := Some t |}.

Definition oversized_file : File := {| name := "huge.png"; size := 5000000 |}.

(** A session: pick a photo, let the reader finish, generate with success,
    clear the photo, pick a file that is too large. *)
Definition session_with_stale_result : list Event :=
  [ ImageChange (Some sample_file);
    ReaderLoadEnd sample_file "data:image/png;base64,AAAA";
    GenerateClick (fun _ => Genai.Resolves (image_response "BBBB"));
    ClearReferenceImage;
    ImageChange (Some oversized_file) ].

Definition two_comma_store : Store :=
  {| ui := {| prompt := "a portrait";
              referenceImage :=
                Some {| file := sample_file;
                        previewUrl := "data:image/png;base64,AA,BB" |};
              generatedImage := None; isLoading := false; error := None |};
     fileInputRef := None |}.

(** A response whose first candidate is blocked and whose second candidate
    carries an image. *)
Definition image_in_second_candidate : Genai.Response :=
  {| Genai.candidates :=
       Some [ {| Genai.content := None |};
              {| Genai.content :=
                   Some {| Genai.parts :=
                     Some [ {| Genai.inlineData :=
                                 Some {| Genai.data := Some "BBBB";
                                         Genai.mimeType := Some "image/png" |};
                               Genai.part_text := None |} ] |} |} ];
     Genai.text := None |}.

(** ** Sessions

    A session is a sequence of events in which the browser fires a reader
    callback only for a read that a file selection has started.  The files
    whose read was started are kept beside the store. *)

Definition fires (started : list File) (e : Event) : Prop :=
  match e with
  | ReaderLoadEnd f _ => In f started
  | ReaderError => started <> []
  | _ => True
  end.

Inductive reachable : Store -> list File -> Prop :=
| reach_init : reachable initial_store []
| reach_step st started e :
    reachable st started ->
    fires started e ->
    reachable (store_of (dispatch e st))
              (started ++ reads (effects (dispatch e st)))%list.

(** The [disabled] attribute of the generate button. *)
Definition button_disabled (s : AppState) : bool :=
  isLoading s
  || match referenceImage s with Some _ => false | None => true end.

(** The number of blocks of the output panel that are on the screen, the
    spinner apart. *)
Definition blocks_shown (v : OutputPanel) : nat :=
  (match error_box v with Some _ => 1 | None => 0 end)
  + (match result_image v with Some _ => 1 | None => 0 end)
  + (if placeholder v then 1 else 0).

Fixpoint string_forallb (f : ascii -> bool) (s : string) : bool :=
  match s with
  | EmptyString => true
  | String c r => f c && string_forallb f r
  end.

(** A string the lazy group of the pattern can take whole: no semicolon
    and no line terminator. *)
Definition group_text (s : string) : bool :=
  string_forallb
    (fun c => negb (Ascii.eqb c ";"%char) && negb (is_line_terminator c)) s.

(** The shape of a data URL as the file reader produces it. *)
Definition data_url (mime payload : string) : string :=
  "data:" ++ mime ++ ";base64," ++ payload.

Definition loaded_store : Store :=
  run_events [ ImageChange (Some sample_file);
               ReaderLoadEnd sample_file "data:image/png;base64,AAAA" ]
             initial_store.

Definition headerless_store : Store :=
  {| ui := {| prompt := "a portrait";
              referenceImage :=
                Some {| file := sample_file; previewUrl := "image/png,AAAA" |};
              generatedImage := None; isLoading := false; error := None |};
     fileInputRef := None |}.

Definition webp_store : Store :=
  {| ui := {| prompt := "a portrait";
              referenceImage :=
                Some {| file := sample_file;
                        previewUrl := data_url "image/webp" "UklGRg==" |};
              generatedImage := None; isLoading := false; error := None |};
     fileInputRef := None |}.

(** What every session keeps. *)
Definition session_invariant (st : Store) (started : list File) : Prop :=
  Forall (fun f => (size f <= 4 * 1024 * 1024)%Z) started
  /\ (forall img, referenceImage (ui st) = Some img ->
        (size (file img) <= 4 * 1024 * 1024)%Z)
  /\ isLoading (ui st) = false
  /\ (generatedImage (ui st) = None
      \/ exists c p,
           generatedImage (ui st)
           = Some ("data:image/jpeg;base64," ++ String c p))
  /\ (error (ui st) = None \/ exists c m, error (ui st) = Some (String c m)).

Definition generated_store : Store :=
  store_of (dispatch
              (GenerateClick (fun _ => Genai.Resolves (image_response "BBBB")))
              loaded_store).

(** * Properties *)

(** ** Strings *)

Lemma split_nonempty sep s : split sep s <> [].
Proof.
  destruct s as [|c r]; simpl; [discriminate|].
  destruct (Ascii.eqb c sep); [discriminate|].
  destruct (split sep r); discriminate.
Qed.

Lemma split_length sep s :
  List.length (split sep s) = S (occurrences sep s).
Proof.
  induction s as [|c r IH]; simpl; [reflexivity|].
  destruct (Ascii.eqb c sep); simpl.
  - now rewrite IH.
  - destruct (split sep r) eqn:E; simpl in *; [discriminate|exact IH].
Qed.

Lemma join_split sep s : join sep (split sep s) = s.
Proof.
  induction s as [|c r IH]; simpl; [reflexivity|].
  destruct (Ascii.eqb_spec c sep) as [->|Hne].
  - pose proof (split_nonempty sep r) as Hn.
    destruct (split sep r) as [|h t]; [congruence|].
    simpl. simpl in IH. now rewrite IH.
  - pose proof (split_nonempty sep r) as Hn.
    destruct (split sep r) as [|h t]; [congruence|].
    destruct t as [|h' t']; simpl in *; now rewrite IH.
Qed.

Lemma split_parts_free sep s :
  Forall (fun p => occurrences sep p = 0) (split sep s).
Proof.
  induction s as [|c r IH]; simpl.
  - repeat constructor.
  - destruct (Ascii.eqb c sep) eqn:E.
    + constructor; [reflexivity|exact IH].
    + destruct (split sep r) as [|h t]; simpl.
      * constructor; [simpl; now rewrite E|constructor].
      * inversion IH; subst. constructor; [simpl; now rewrite E|assumption].
Qed.

(** With exactly one separator the two readings of the split agree. *)
Lemma split_on_first_one sep s :
  occurrences sep s = 1 -> Spec.split_on_first sep s = split sep s.
Proof.
  induction s as [|c r IH]; simpl; [discriminate|].
  destruct (Ascii.eqb c sep) eqn:E; simpl; intros H.
  - assert (H0 : occurrences sep r = 0) by lia.
    f_equal. clear -H0.
    induction r as [|a r IH]; simpl in *; [reflexivity|].
    destruct (Ascii.eqb a sep); simpl in *; [discriminate|].
    now rewrite <- IH.
  - now rewrite IH.
Qed.

Lemma split_two sep s h p :
  split sep s = [h; p] ->
  s = h ++ String sep p /\ occurrences sep h = 0 /\ occurrences sep p = 0
  /\ Spec.split_on_first sep s = [h; p].
Proof.
  intros H.
  pose proof (join_split sep s) as J. rewrite H in J. simpl in J.
  pose proof (split_parts_free sep s) as F. rewrite H in F.
  pose proof (split_length sep s) as L. rewrite H in L. simpl in L.
  apply Forall_cons_iff in F. destruct F as [Fh F].
  apply Forall_cons_iff in F. destruct F as [Fp _].
  repeat split; auto.
  rewrite split_on_first_one; [exact H|lia].
Qed.

Lemma string_length_app (a b : string) :
  String.length (a ++ b) = String.length a + String.length b.
Proof. induction a; simpl; auto. Qed.

Lemma string_app_inv_tail (a b c : string) : a ++ c = b ++ c -> a = b.
Proof.
  revert b. induction a as [|x a IH]; intros [|y b] H; simpl in *.
  - reflexivity.
  - apply (f_equal String.length) in H. simpl in H.
    rewrite string_length_app in H. lia.
  - apply (f_equal String.length) in H. simpl in H.
    rewrite string_length_app in H. lia.
  - injection H as -> H. f_equal. now apply IH.
Qed.

(** ** Running a handler *)

Ltac unfold_handlers :=
  unfold generate, handleGenerateClick, editImageWithReference, generateContent,
    handleImageChange, reader_onloadend, reader_onerror, clearReferenceImage,
    try_finally, try_catch, bind, ret, throw,
    setPrompt, setReferenceImage, setGeneratedImage, setIsLoading, setError,
    setState, console_error, readAsDataURL, emit,
    state_of, store_of, outcome, effects in *.

(** Case analysis on what the service answers and on what the client finds
    in the answer. *)
Ltac client_cases :=
  repeat match goal with
    | |- context [match ?service ?request with
                  | Genai.Resolves _ => _ | Genai.Rejects _ => _ end] =>
        let E := fresh "Hreply" in destruct (service request) as [?response|[?m|]] eqn:E; simpl
    | |- context [match image_of_response ?r with Some _ => _ | None => _ end] =>
        let E := fresh "Himage" in destruct (image_of_response r) eqn:E; simpl
    | |- context [Genai.text ?r] =>
        let E := fresh "Htext" in destruct (Genai.text r) as [[|? ?]|] eqn:E; simpl
    end.

(** ** Generate without a reference image *)

(** C5: invoked with no Reference Image, generate sets the error
    "Please upload a reference image first.", calls the Generation Client
    zero times, and leaves the prompt, the reference image and the generated
    result as they were, whatever the prompt is. *)
Theorem generate_without_reference_image service st :
  referenceImage (ui st) = None ->
  let r := generate service st in
  outcome r = Normal tt
  /\ error (state_of r) = Some "Please upload a reference image first."
  /\ requests (effects r) = []
  /\ prompt (state_of r) = prompt (ui st)
  /\ referenceImage (state_of r) = referenceImage (ui st)
  /\ generatedImage (state_of r) = generatedImage (ui st)
  /\ isLoading (state_of r) = isLoading (ui st)
  /\ fileInputRef (store_of r) = fileInputRef st.
Proof.
  intros H. unfold_handlers. rewrite H. simpl. repeat split; auto.
Qed.

Lemma generate_without_reference_image_witness :
  referenceImage (ui initial_store) = None
  /\ error (state_of (generate (fun _ => Genai.Rejects JsOther) initial_store))
     = Some "Please upload a reference image first."
  /\ requests (effects (generate (fun _ => Genai.Rejects JsOther) initial_store))
     = [].
Proof.
  split; [reflexivity|].
  pose proof (generate_without_reference_image
                (fun _ => Genai.Rejects JsOther) initial_store eq_refl) as H.
  simpl in H. destruct H as (_ & He & Hr & _). split; [exact He|exact Hr].
Defined.

(** ** Selecting a file *)

(** C9: a file larger than 4 MiB is rejected: the error is set, the stored
    Reference Image is the one stored before (or none), and no read of the
    file is started, so that no callback will store it later. *)
Theorem oversized_file_rejected f st :
  (4 * 1024 * 1024 < size f)%Z ->
  let r := handleImageChange (Some f) st in
  error (state_of r)
    = Some "File is too large. Please upload an image under 4MB."
  /\ referenceImage (state_of r) = referenceImage (ui st)
  /\ reads (effects r) = []
  /\ prompt (state_of r) = prompt (ui st)
  /\ generatedImage (state_of r) = generatedImage (ui st)
  /\ isLoading (state_of r) = isLoading (ui st).
Proof.
  intros H. unfold_handlers. unfold MAX_FILE_SIZE.
  destruct (Z.ltb_spec (4 * 1024 * 1024) (size f)) as [_|Hle]; [|lia].
  simpl. repeat split.
Qed.

Lemma oversized_file_rejected_witness :
  let big := {| name := "big.png"; size := 4194305 |} in
  (4 * 1024 * 1024 < size big)%Z
  /\ referenceImage (state_of (handleImageChange (Some big) initial_store))
     = None
  /\ reads (effects (handleImageChange (Some big) initial_store)) = [].
Proof.
  simpl. split; [lia|].
  pose proof (oversized_file_rejected
                {| name := "big.png"; size := 4194305 |} initial_store) as H.
  simpl in H. destruct H as (_ & Hr & Hd & _); [lia|].
  split; [exact Hr|exact Hd].
Defined.

(** A file of at most 4 MiB is handed to the reader and nothing else
    happens until a callback fires. *)
Lemma acceptable_file_read f st :
  (size f <= 4 * 1024 * 1024)%Z ->
  handleImageChange (Some f) st = (Normal tt, st, [ReadAsDataURL f]).
Proof.
  intros H. unfold_handlers. unfold MAX_FILE_SIZE.
  destruct (Z.ltb_spec (4 * 1024 * 1024) (size f)); [lia|reflexivity].
Qed.

(** ** Clearing the reference image *)

(** C10: clearing sets the Reference Image to absent and resets the file
    input when there is one; the prompt, the error, the generated result and
    the loading flag keep their values, so the output panel shows what it
    showed before: an error or an image of a previous attempt stays. *)
Theorem clear_reference_image_frame st :
  let r := clearReferenceImage st in
  outcome r = Normal tt
  /\ referenceImage (state_of r) = None
  /\ fileInputRef (store_of r)
     = match fileInputRef st with Some _ => Some "" | None => None end
  /\ prompt (state_of r) = prompt (ui st)
  /\ error (state_of r) = error (ui st)
  /\ generatedImage (state_of r) = generatedImage (ui st)
  /\ isLoading (state_of r) = isLoading (ui st)
  /\ render (state_of r) = render (ui st)
  /\ requests (effects r) = [] /\ reads (effects r) = [].
Proof.
  unfold_handlers. simpl.
  destruct (fileInputRef st); simpl; repeat split.
Qed.

(** ** A generate attempt *)

(** Case analysis on the local parsing of the stored data URL. *)
Ltac parse_cases :=
  repeat match goal with
    | |- context [(List.length (split ?c ?u) =? 2)%nat] =>
        let E := fresh "Hparts" in
        destruct (List.length (split c u) =? 2)%nat eqn:E; simpl
    | |- context [match_colon_group_semicolon ?h] =>
        let E := fresh "Hmime" in
        destruct (match_colon_group_semicolon h) as [[|? ?]|] eqn:E; simpl
    end.

Ltac reflect_parts :=
  match goal with
  | Hp : (_ =? _)%nat = true |- _ => apply Nat.eqb_eq in Hp
  | Hp : (_ =? _)%nat = false |- _ => apply Nat.eqb_neq in Hp
  end.

Ltac generate_cases H :=
  unfold_handlers; rewrite H; simpl; parse_cases; client_cases.





(** No other handler writes the loading flag. *)
Lemma other_events_keep_loading e st :
  (forall service, e <> GenerateClick service) ->
  isLoading (state_of (dispatch e st)) = isLoading (ui st).
Proof.
  intros Hne. destruct e as [[f|]| | | | |service]; simpl.
  - unfold_handlers. destruct (MAX_FILE_SIZE <? size f)%Z; reflexivity.
  - reflexivity.
  - reflexivity.
  - reflexivity.
  - unfold_handlers. simpl. destruct (fileInputRef st); reflexivity.
  - reflexivity.
  - now destruct (Hne service).
Qed.

(** C6: with the stored data URL data:image/png;base64,AAAA the attempt
    issues exactly one request, carrying the payload AAAA, the MIME type
    image/png and the current prompt. *)
Theorem generate_png_request service st f :
  referenceImage (ui st)
    = Some {| file := f; previewUrl := "data:image/png;base64,AAAA" |} ->
  requests (effects (generate service st))
    = [request_of (prompt (ui st)) "AAAA" "image/png"].
Proof.
  intros H. generate_cases H; reflexivity.
Qed.

Lemma generate_png_request_witness :
  referenceImage (ui sample_store)
    = Some {| file := sample_file; previewUrl := "data:image/png;base64,AAAA" |}
  /\ requests (effects (generate (fun _ => Genai.Rejects JsOther) sample_store))
     = [request_of "a portrait" "AAAA" "image/png"].
Proof.
  split; [reflexivity|].
  exact (generate_png_request (fun _ => Genai.Rejects JsOther)
           sample_store sample_file eq_refl).
Defined.

(** ** Error and result *)

(** C1, as stated, fails: at the end of the session above the error and the
    generated result are both set and both non-empty. *)
Lemma error_and_result_both_set :
  let s := ui (run_events session_with_stale_result initial_store) in
  error s = Some "File is too large. Please upload an image under 4MB."
  /\ generatedImage s = Some "data:image/jpeg;base64,BBBB"
  /\ truthy (error s) = true /\ truthy (generatedImage s) = true.
Proof. vm_compute. repeat split. Qed.

(** Outside an attempt, no handler writes the generated result. *)
Lemma other_events_keep_result e st :
  (forall service, e <> GenerateClick service) ->
  generatedImage (state_of (dispatch e st)) = generatedImage (ui st).
Proof.
  intros Hne. destruct e as [[f|]| | | | |service]; simpl.
  - unfold_handlers. destruct (MAX_FILE_SIZE <? size f)%Z; reflexivity.
  - reflexivity.
  - reflexivity.
  - reflexivity.
  - unfold_handlers. simpl. destruct (fileInputRef st); reflexivity.
  - reflexivity.
  - now destruct (Hne service).
Qed.

(** C1, amended: a generate attempt made with a Reference Image present
    ends with exactly one of the error and the generated result set, and
    that one is non-empty; and in every state the output panel never shows
    an error and a generated image together. *)
Theorem generate_error_xor_result service st img :
  referenceImage (ui st) = Some img ->
  let s := state_of (generate service st) in
  ((truthy (error s) = true /\ generatedImage s = None)
   \/ (error s = None /\ truthy (generatedImage s) = true))
  /\ forall s' : AppState,
       error_box (render s') <> None -> result_image (render s') = None.
Proof.
  intros H. split.
  - generate_cases H;
      solve [left; split; reflexivity | right; split; reflexivity].
  - intros s'. unfold render; simpl.
    destruct (truthy (error s')); [|congruence].
    intros _. now rewrite andb_false_r.
Qed.

Lemma generate_error_xor_result_witness :
  let s := state_of (generate (fun _ => Genai.Resolves (text_response "no"))
                       sample_store) in
  referenceImage (ui sample_store) = Some sample_image
  /\ truthy (error s) = true /\ generatedImage s = None.
Proof.
  simpl. split; [reflexivity|].
  pose proof (generate_error_xor_result
                (fun _ => Genai.Resolves (text_response "no"))
                sample_store sample_image eq_refl) as H.
  simpl in H. destruct H as [[H|[H _]] _]; [exact H|discriminate H].
Defined.

(** ** Parsing the stored data URL *)

(** C3, as stated, fails: split on its first comma, the URL
    data:image/png;base64,AA,BB has exactly two parts, a header and a
    payload, yet generate fails with the invalid-format error. *)
Lemma first_comma_split_accepts_what_generate_rejects :
  let r := generate (fun _ => Genai.Resolves (image_response "BBBB"))
             two_comma_store in
  Spec.split_on_first "," "data:image/png;base64,AA,BB"
    = ["data:image/png;base64"; "AA,BB"]
  /\ split "," "data:image/png;base64,AA,BB"
     = ["data:image/png;base64"; "AA"; "BB"]
  /\ error (state_of r) = Some "Invalid image data URL format."
  /\ requests (effects r) = [].
Proof. vm_compute. repeat split. Qed.

(** C3, amended: generate splits the stored data URL at every comma.  It
    fails with the invalid-format error exactly when that split does not
    yield exactly two parts, that is when the URL does not hold exactly one
    comma, and then it issues no request.  When the split yields two parts
    they are the header before the comma and the payload after it, as a
    split on the first comma gives them, and any request carries that
    payload with the MIME type matched in that header. *)
Theorem invalid_format_iff service st img :
  referenceImage (ui st) = Some img ->
  let r := generate service st in
  let url := previewUrl img in
  (error (state_of r) = Some "Invalid image data URL format."
   <-> List.length (split "," url) <> 2)
  /\ (List.length (split "," url) <> 2 <-> occurrences "," url <> 1)
  /\ (List.length (split "," url) <> 2 -> requests (effects r) = [])
  /\ forall h p, split "," url = [h; p] ->
       url = h ++ "," ++ p
       /\ occurrences "," h = 0 /\ occurrences "," p = 0
       /\ Spec.split_on_first "," url = [h; p]
       /\ forall request, In request (requests (effects r)) ->
            exists mime,
              match_colon_group_semicolon h = Some mime
              /\ request = request_of (prompt (ui st)) p mime.
Proof.
  intros H r url. subst r url. split; [|split; [|split]].
  - generate_cases H; reflect_parts;
      split; intros Hx; try discriminate Hx; try congruence.
  - rewrite split_length. lia.
  - generate_cases H; reflect_parts; intros Hx; try reflexivity;
      congruence.
  - intros h p Hs. destruct (split_two _ _ _ _ Hs) as (Hu & Hh & Hp & Hf).
    repeat split; auto.
    unfold_handlers. rewrite H. simpl. rewrite Hs. simpl.
    parse_cases; client_cases; simpl; intros request Hin;
      try contradiction;
      destruct Hin as [<-|[]]; eexists; split; reflexivity.
Qed.

Lemma invalid_format_iff_witness :
  let r := generate (fun _ => Genai.Resolves (image_response "BBBB"))
             two_comma_store in
  referenceImage (ui two_comma_store)
    = Some {| file := sample_file; previewUrl := "data:image/png;base64,AA,BB" |}
  /\ (error (state_of r) = Some "Invalid image data URL format."
      <-> List.length (split "," "data:image/png;base64,AA,BB") <> 2).
Proof.
  split; [reflexivity|].
  exact (proj1 (invalid_format_iff
                  (fun _ => Genai.Resolves (image_response "BBBB"))
                  two_comma_store _ eq_refl)).
Defined.

(** ** The client seen from the shell *)

(** The client issues exactly one request and leaves the store alone; what
    it returns or throws does not depend on the store. *)
Lemma client_run service prompt b64 mime st :
  store_of (editImageWithReference service prompt b64 mime st) = st
  /\ requests (effects (editImageWithReference service prompt b64 mime st))
     = [request_of prompt b64 mime]
  /\ states_during (ui st)
       (effects (editImageWithReference service prompt b64 mime st))
     = map (fun _ => ui st)
         (effects (editImageWithReference service prompt b64 mime st)).
Proof.
  unfold_handlers. fold (request_of prompt b64 mime).
  client_cases; repeat split.
Qed.

Lemma client_outcome_any_store service prompt b64 mime st st' :
  outcome (editImageWithReference service prompt b64 mime st)
  = outcome (editImageWithReference service prompt b64 mime st').
Proof.
  unfold_handlers. client_cases; reflexivity.
Qed.

(** Every failure of the client is an [Error] with a non-empty message. *)
Lemma client_throws_error service prompt b64 mime st e :
  outcome (editImageWithReference service prompt b64 mime st) = Throw e ->
  exists c m, e = JsError (String c m).
Proof.
  unfold_handlers. client_cases; intros H; inversion H; subst;
    eexists; eexists; reflexivity.
Qed.

(** What an attempt does once the data URL is parsed, in terms of what the
    client answers. *)
Lemma generate_after_parse service st img h b64 mime :
  referenceImage (ui st) = Some img ->
  split "," (previewUrl img) = [h; b64] ->
  match_colon_group_semicolon h = Some mime -> mime <> "" ->
  let s := state_of (generate service st) in
  match outcome (editImageWithReference service (prompt (ui st)) b64 mime st)
  with
  | Normal payload =>
      generatedImage s = Some ("data:image/jpeg;base64," ++ payload)
      /\ error s = None
  | Throw (JsError message) =>
      generatedImage s = None /\ error s = Some message
  | Throw JsOther =>
      generatedImage s = None /\ error s = Some "An unknown error occurred."
  end.
Proof.
  intros H Hs Hm Hne.
  destruct mime as [|c m]; [congruence|].
  unfold_handlers. rewrite H. simpl. rewrite Hs. simpl. rewrite Hm. simpl.
  fold (request_of (prompt (ui st)) b64 (String c m)).
  client_cases; split; reflexivity.
Qed.

Lemma string_app_assoc (a b c : string) : (a ++ b) ++ c = a ++ (b ++ c).
Proof. induction a as [|x a IH]; simpl; [reflexivity|now rewrite IH]. Qed.

(** ** The generated result *)

(** C4: when the client returns a payload, the stored generated result is
    the text data:image/jpeg;base64, followed by that payload, and the error
    is unset; a reference image of any other MIME type does not give its
    type to the result. *)
Theorem generated_result_is_jpeg_data_url service st img h b64 mime payload :
  referenceImage (ui st) = Some img ->
  split "," (previewUrl img) = [h; b64] ->
  match_colon_group_semicolon h = Some mime -> mime <> "" ->
  (forall st', outcome (editImageWithReference service (prompt (ui st))
                          b64 mime st') = Normal payload) ->
  let s := state_of (generate service st) in
  generatedImage s = Some ("data:image/jpeg;base64," ++ payload)
  /\ error s = None
  /\ (mime <> "image/jpeg" ->
      generatedImage s <> Some ("data:" ++ mime ++ ";base64," ++ payload)).
Proof.
  intros H Hs Hm Hne Hclient.
  pose proof (generate_after_parse service st img h b64 mime H Hs Hm Hne) as G.
  simpl in G. rewrite (Hclient st) in G. destruct G as [Hg He].
  simpl. split; [exact Hg|]. split; [exact He|].
  intros Hmime Heq. rewrite Hg in Heq. simpl in Heq.
  injection Heq as Heq.
  change ("image/jpeg;base64," ++ payload = mime ++ ";base64," ++ payload)
    in Heq.
  rewrite <- string_app_assoc in Heq.
  apply string_app_inv_tail in Heq.
  change ("image/jpeg" ++ ";base64," = mime ++ ";base64,") in Heq.
  apply string_app_inv_tail in Heq. congruence.
Qed.

Lemma generated_result_is_jpeg_data_url_witness :
  let service := fun _ : Genai.Request =>
                   Genai.Resolves (image_response "BBBB") in
  referenceImage (ui sample_store) = Some sample_image
  /\ split "," (previewUrl sample_image) = ["data:image/png;base64"; "AAAA"]
  /\ match_colon_group_semicolon "data:image/png;base64" = Some "image/png"
  /\ generatedImage (state_of (generate service sample_store))
     = Some "data:image/jpeg;base64,BBBB".
Proof.
  simpl. repeat (split; [reflexivity|]).
  refine (proj1 (generated_result_is_jpeg_data_url
                   (fun _ => Genai.Resolves (image_response "BBBB"))
                   sample_store sample_image "data:image/png;base64" "AAAA"
                   "image/png" "BBBB" eq_refl eq_refl eq_refl _ _)).
  - discriminate.
  - intros st'. reflexivity.
Defined.

(** ** What the client finds in a response *)

Lemma first_inline_data_none ps :
  Forall (fun q => Spec.part_has_payload q = false) ps ->
  first_inline_data ps = None.
Proof.
  induction 1 as [|q ps Hq _ IH]; simpl; [reflexivity|].
  unfold Spec.part_has_payload in Hq.
  destruct (Genai.inlineData q) as [d|]; [now rewrite Hq|exact IH].
Qed.

(** The scan returns the payload of the first part that has one. *)
Lemma first_inline_data_first ps :
  existsb Spec.part_has_payload ps = true ->
  exists pre p post d payload,
    ps = (pre ++ p :: post)%list
    /\ Forall (fun q => Spec.part_has_payload q = false) pre
    /\ Genai.inlineData p = Some d /\ Genai.data d = Some payload
    /\ payload <> ""
    /\ first_inline_data ps = Some payload.
Proof.
  induction ps as [|q ps IH]; simpl; [discriminate|].
  destruct (Spec.part_has_payload q) eqn:Hq; simpl.
  - intros _. unfold Spec.part_has_payload in Hq.
    destruct (Genai.inlineData q) as [d|] eqn:Hd; [|discriminate].
    rewrite Hq.
    destruct (Genai.data d) as [[|c t]|] eqn:Hp; try discriminate.
    exists [], q, ps, d, (String c t).
    repeat split; auto. discriminate.
  - intros Hex. destruct (IH Hex) as (pre & p & post & d & payload & Hps
                                      & Hpre & Hd & Hp & Hne & Hf).
    exists (q :: pre), p, post, d, payload.
    repeat split; auto.
    + now rewrite Hps.
    + unfold Spec.part_has_payload in Hq.
      destruct (Genai.inlineData q) as [dq|]; [now rewrite Hq|exact Hf].
Qed.

(** C2, as stated, fails: the response above contains a candidate with a
    non-empty inline-data payload, and the client fails on it. *)
Lemma image_in_later_candidate_not_returned :
  Spec.some_candidate_has_payload image_in_second_candidate = true
  /\ outcome (editImageWithReference
                (fun _ => Genai.Resolves image_in_second_candidate)
                "a portrait" "AAAA" "image/png" sample_store)
     = Throw (JsError "Gemini API Error: No image was generated in the API response. The response may have been blocked or empty.").
Proof. vm_compute. split; reflexivity. Qed.

(** C2, amended: for every response whose first candidate has content
    parts that include an inline-data part with a non-empty payload, the
    client succeeds and returns the payload of the first such part of that
    candidate, scanning its parts in order. *)
Theorem first_candidate_image_returned
    service prompt b64 mime st response c0 cs :
  service (request_of prompt b64 mime) = Genai.Resolves response ->
  Genai.candidates response = Some (c0 :: cs) ->
  Spec.candidate_has_payload c0 = true ->
  exists ct pre p post d payload,
    Genai.content c0 = Some ct
    /\ Genai.parts ct = Some (pre ++ p :: post)%list
    /\ Forall (fun q => Spec.part_has_payload q = false) pre
    /\ Genai.inlineData p = Some d /\ Genai.data d = Some payload
    /\ payload <> ""
    /\ outcome (editImageWithReference service prompt b64 mime st)
       = Normal payload.
Proof.
  intros Hreply Hcs Hc0. unfold Spec.candidate_has_payload in Hc0.
  destruct (Genai.content c0) as [ct|] eqn:Hct; [|discriminate].
  destruct (Genai.parts ct) as [ps|] eqn:Hps; [|discriminate].
  destruct (first_inline_data_first ps Hc0)
    as (pre & p & post & d & payload & Hsplit & Hpre & Hd & Hp & Hne & Hf).
  exists ct, pre, p, post, d, payload.
  rewrite <- Hsplit. repeat split; auto.
  unfold_handlers. fold (request_of prompt b64 mime). rewrite Hreply.
  unfold image_of_response. rewrite Hcs, Hct, Hps, Hf. reflexivity.
Qed.

Lemma first_candidate_image_returned_witness :
  exists payload,
    outcome (editImageWithReference
               (fun _ => Genai.Resolves (image_response "BBBB"))
               "a portrait" "AAAA" "image/png" sample_store)
    = Normal payload
    /\ payload = "BBBB".
Proof.
  destruct (first_candidate_image_returned
              (fun _ => Genai.Resolves (image_response "BBBB"))
              "a portrait" "AAAA" "image/png" sample_store
              (image_response "BBBB") _ _ eq_refl eq_refl eq_refl)
    as (ct & pre & p & post & d & payload & _ & _ & _ & _ & _ & _ & Hout).
  exists payload. split; [exact Hout|].
  simpl in Hout. now injection Hout.
Defined.

(** ** A response with text and no image *)

Lemma no_inline_data_part_no_image response :
  Spec.no_inline_data_part response -> image_of_response response = None.
Proof.
  intros Hno. unfold image_of_response.
  destruct (Genai.candidates response) as [[|c0 cs]|] eqn:Hcs; try reflexivity.
  destruct (Genai.content c0) as [ct|] eqn:Hct; [|reflexivity].
  destruct (Genai.parts ct) as [ps|] eqn:Hps; [|reflexivity].
  apply first_inline_data_none. apply Forall_forall. intros p Hin.
  unfold Spec.part_has_payload.
  now rewrite (Hno (c0 :: cs) c0 ct ps p Hcs (or_introl eq_refl) Hct Hps Hin).
Qed.

(** C7: on a response that has no inline-data part and whose text is not
    empty, the client fails with a message built around the first 100
    characters of the text, and the shell stores exactly that message as
    the error, leaving the generated result unset. *)
Theorem text_response_surfaced service prompt0 b64 mime response t :
  service (request_of prompt0 b64 mime) = Genai.Resolves response ->
  Spec.no_inline_data_part response ->
  Genai.text response = Some t -> t <> "" ->
  let message :=
    "Gemini API Error: API returned text instead of an image: " ++ dquote
      ++ substring 0 100 t ++ "..." ++ dquote in
  (exists before after, message = before ++ substring 0 100 t ++ after)
  /\ (forall st, outcome (editImageWithReference service prompt0 b64 mime st)
                 = Throw (JsError message))
  /\ forall st img h,
       prompt (ui st) = prompt0 ->
       referenceImage (ui st) = Some img ->
       split "," (previewUrl img) = [h; b64] ->
       match_colon_group_semicolon h = Some mime -> mime <> "" ->
       error (state_of (generate service st)) = Some message
       /\ generatedImage (state_of (generate service st)) = None.
Proof.
  intros Hreply Hno Ht Hne message.
  assert (Hclient : forall st,
             outcome (editImageWithReference service prompt0 b64 mime st)
             = Throw (JsError message)).
  { intros st. unfold_handlers. fold (request_of prompt0 b64 mime).
    rewrite Hreply, (no_inline_data_part_no_image _ Hno), Ht.
    destruct t as [|c t']; [congruence|]. reflexivity. }
  split; [|split; [exact Hclient|]].
  - exists ("Gemini API Error: API returned text instead of an image: "
            ++ dquote), ("..." ++ dquote).
    subst message. now rewrite !string_app_assoc.
  - intros st img h Hp H Hs Hm Hmne.
    pose proof (generate_after_parse service st img h b64 mime H Hs Hm Hmne)
      as G.
    simpl in G. rewrite Hp, (Hclient st) in G. destruct G as [Hg He].
    split; assumption.
Qed.

Lemma text_response_surfaced_witness :
  let service := fun _ : Genai.Request =>
                   Genai.Resolves (text_response "I cannot draw that.") in
  Genai.text (text_response "I cannot draw that.")
    = Some "I cannot draw that."
  /\ error (state_of (generate service sample_store))
     = Some ("Gemini API Error: API returned text instead of an image: "
             ++ dquote ++ "I cannot draw that." ++ "..." ++ dquote).
Proof.
  simpl. split; [reflexivity|].
  refine (proj1 (proj2 (proj2
            (text_response_surfaced
               (fun _ => Genai.Resolves (text_response "I cannot draw that."))
               "a portrait" "AAAA" "image/png"
               (text_response "I cannot draw that.") "I cannot draw that."
               eq_refl _ eq_refl _))
            sample_store sample_image "data:image/png;base64"
            eq_refl eq_refl eq_refl eq_refl _)).
  - intros cs c ct ps p Hcs Hc Hct Hps Hp.
    injection Hcs as <-. destruct Hc as [<-|[]].
    injection Hct as <-. injection Hps as <-.
    destruct Hp as [<-|[]]. reflexivity.
  - discriminate.
  - discriminate.
Defined.

(** * Further properties of the client *)

Lemma first_inline_data_some ps payload :
  first_inline_data ps = Some payload ->
  exists pre p post d,
    ps = (pre ++ p :: post)%list
    /\ Forall (fun q => Spec.part_has_payload q = false) pre
    /\ Genai.inlineData p = Some d /\ Genai.data d = Some payload
    /\ payload <> "".
Proof.
  induction ps as [|q ps IH]; simpl; [discriminate|].
  destruct (Genai.inlineData q) as [d|] eqn:Hd.
  - destruct (truthy (Genai.data d)) eqn:Ht.
    + intros Hp. exists [], q, ps, d. repeat split; auto.
      rewrite Hp in Ht. destruct payload; [discriminate Ht|discriminate].
    + intros Hf. destruct (IH Hf) as (pre & p & post & d' & Hps & Hpre & R).
      exists (q :: pre), p, post, d'. split; [now rewrite Hps|].
      split; [|exact R]. constructor; [|exact Hpre].
      unfold Spec.part_has_payload. now rewrite Hd.
  - intros Hf. destruct (IH Hf) as (pre & p & post & d' & Hps & Hpre & R).
    exists (q :: pre), p, post, d'. split; [now rewrite Hps|].
    split; [|exact R]. constructor; [|exact Hpre].
    unfold Spec.part_has_payload. now rewrite Hd.
Qed.

Lemma existsb_false_Forall {A} (f : A -> bool) l :
  existsb f l = false -> Forall (fun x => f x = false) l.
Proof.
  induction l as [|x l IH]; simpl; [constructor|].
  intros H. apply orb_false_iff in H. destruct H as [Hx Hl].
  constructor; auto.
Qed.

(** The scan finds nothing exactly when there is no first candidate or the
    first candidate has no part with a non-empty payload. *)
Lemma image_of_response_none response :
  match Genai.candidates response with
  | Some (c0 :: _) => Spec.candidate_has_payload c0 = false
  | _ => True
  end ->
  image_of_response response = None.
Proof.
  unfold image_of_response, Spec.candidate_has_payload.
  destruct (Genai.candidates response) as [[|c0 cs]|]; try reflexivity.
  destruct (Genai.content c0) as [ct|]; [|reflexivity].
  destruct (Genai.parts ct) as [ps|]; [|reflexivity].
  intros H. apply first_inline_data_none. now apply existsb_false_Forall.
Qed.

(** X1: when the call to the service fails, the client logs the failure
    and throws an [Error] of its own: the message of a thrown [Error]
    prefixed with Gemini API Error, or a fixed message when the thrown
    value is not an [Error].  The one request was issued and the store is
    untouched. *)
Theorem client_wraps_service_failure service prompt0 b64 mime reason st :
  service (request_of prompt0 b64 mime) = Genai.Rejects reason ->
  editImageWithReference service prompt0 b64 mime st
  = (Throw (JsError
       match reason with
       | JsError message => "Gemini API Error: " ++ message
       | JsOther =>
           "An unknown error occurred while communicating with the Gemini API."
       end),
     st,
     [GenerateContent (request_of prompt0 b64 mime); ConsoleError reason]).
Proof.
  intros H. unfold_handlers. fold (request_of prompt0 b64 mime).
  rewrite H. destruct reason; reflexivity.
Qed.

Lemma client_wraps_service_failure_witness :
  outcome (editImageWithReference
             (fun _ => Genai.Rejects (JsError "quota exceeded"))
             "a portrait" "AAAA" "image/png" sample_store)
  = Throw (JsError "Gemini API Error: quota exceeded").
Proof.
  rewrite (client_wraps_service_failure
             (fun _ => Genai.Rejects (JsError "quota exceeded"))
             "a portrait" "AAAA" "image/png" (JsError "quota exceeded")
             sample_store eq_refl).
  reflexivity.
Defined.

(** X2: when the response has no first candidate, or its first candidate
    has no part with a non-empty inline payload, and the response text is
    absent or empty, the client fails with the no-image message, which its
    own handler has prefixed with Gemini API Error. *)
Theorem client_empty_response service prompt0 b64 mime response st :
  service (request_of prompt0 b64 mime) = Genai.Resolves response ->
  match Genai.candidates response with
  | Some (c0 :: _) => Spec.candidate_has_payload c0 = false
  | _ => True
  end ->
  truthy (Genai.text response) = false ->
  outcome (editImageWithReference service prompt0 b64 mime st)
  = Throw (JsError ("Gemini API Error: " ++ no_image_generated)).
Proof.
  intros Hreply Hno Ht. unfold_handlers. fold (request_of prompt0 b64 mime).
  rewrite Hreply, (image_of_response_none _ Hno). simpl.
  destruct (Genai.text response) as [[|c t]|]; try reflexivity.
  discriminate Ht.
Qed.

Lemma client_empty_response_witness :
  outcome (editImageWithReference
             (fun _ => Genai.Resolves
                         {| Genai.candidates := Some []; Genai.text := Some "" |})
             "a portrait" "AAAA" "image/png" sample_store)
  = Throw (JsError "Gemini API Error: No image was generated in the API response. The response may have been blocked or empty.").
Proof.
  exact (client_empty_response
           (fun _ => Genai.Resolves
                       {| Genai.candidates := Some []; Genai.text := Some "" |})
           "a portrait" "AAAA" "image/png"
           {| Genai.candidates := Some []; Genai.text := Some "" |}
           sample_store eq_refl I eq_refl).
Defined.

(** X3: a payload the client returns is never empty and is never made up:
    the service answered, and the payload is the data of an inline-data
    part of the first candidate of the answer, every part before it having
    no payload. *)
Theorem client_success_sound service prompt0 b64 mime st payload :
  outcome (editImageWithReference service prompt0 b64 mime st)
  = Normal payload ->
  payload <> ""
  /\ exists response c0 cs ct pre p post d,
       service (request_of prompt0 b64 mime) = Genai.Resolves response
       /\ Genai.candidates response = Some (c0 :: cs)
       /\ Genai.content c0 = Some ct
       /\ Genai.parts ct = Some (pre ++ p :: post)%list
       /\ Forall (fun q => Spec.part_has_payload q = false) pre
       /\ Genai.inlineData p = Some d /\ Genai.data d = Some payload.
Proof.
  unfold_handlers. fold (request_of prompt0 b64 mime).
  destruct (service (request_of prompt0 b64 mime)) as [response|[m|]] eqn:Hr;
    simpl; try discriminate.
  destruct (image_of_response response) as [found|] eqn:Hi; simpl.
  - intros Hp. injection Hp as ->.
    unfold image_of_response in Hi.
    destruct (Genai.candidates response) as [[|c0 cs]|] eqn:Hcs;
      try discriminate.
    destruct (Genai.content c0) as [ct|] eqn:Hct; [|discriminate].
    destruct (Genai.parts ct) as [ps|] eqn:Hps; [|discriminate].
    destruct (first_inline_data_some ps payload Hi)
      as (pre & p & post & d & Hsplit & Hpre & Hd & Hdata & Hne).
    split; [exact Hne|].
    exists response, c0, cs, ct, pre, p, post, d.
    rewrite <- Hsplit. repeat split; auto.
  - destruct (Genai.text response) as [[|c t]|]; simpl; discriminate.
Qed.

Lemma client_success_sound_witness :
  outcome (editImageWithReference
             (fun _ => Genai.Resolves (image_response "BBBB"))
             "a portrait" "AAAA" "image/png" sample_store)
  = Normal "BBBB"
  /\ "BBBB" <> "".
Proof.
  split; [reflexivity|].
  exact (proj1 (client_success_sound
                  (fun _ => Genai.Resolves (image_response "BBBB"))
                  "a portrait" "AAAA" "image/png" sample_store "BBBB"
                  eq_refl)).
Defined.

(** ** The excerpt of a text answer *)

Lemma substring_prefix n (t : string) :
  exists rest, t = substring 0 n t ++ rest.
Proof.
  revert t. induction n as [|n IH]; intros t.
  - exists t. now destruct t.
  - destruct t as [|c t]; simpl.
    + now exists "".
    + destruct (IH t) as [rest Hr]. exists rest. now rewrite <- Hr.
Qed.

Lemma substring_length n (t : string) :
  String.length (substring 0 n t) = Nat.min n (String.length t).
Proof.
  revert t. induction n as [|n IH]; intros t.
  - now destruct t.
  - destruct t as [|c t]; simpl; [reflexivity|now rewrite IH].
Qed.

Lemma substring_whole n (t : string) :
  String.length t <= n -> substring 0 n t = t.
Proof.
  revert t. induction n as [|n IH]; intros t H.
  - destruct t; [reflexivity|simpl in H; lia].
  - destruct t as [|c t]; simpl; [reflexivity|].
    rewrite IH; [reflexivity|simpl in H; lia].
Qed.

(** X4: when the scan finds no image and the response text is not empty,
    the message the client throws quotes an excerpt of the text followed by
    three dots: the excerpt is the beginning of the text, at most 100
    characters long, and the whole text when the text has at most 100
    characters; the message is never longer than 162 characters. *)
Theorem text_excerpt service prompt0 b64 mime response t st :
  service (request_of prompt0 b64 mime) = Genai.Resolves response ->
  image_of_response response = None ->
  Genai.text response = Some t -> t <> "" ->
  exists excerpt message,
    outcome (editImageWithReference service prompt0 b64 mime st)
    = Throw (JsError message)
    /\ message = "Gemini API Error: API returned text instead of an image: "
                 ++ dquote ++ excerpt ++ "..." ++ dquote
    /\ (exists rest, t = excerpt ++ rest)
    /\ String.length excerpt = Nat.min 100 (String.length t)
    /\ (String.length t <= 100 -> excerpt = t)
    /\ String.length message <= 162.
Proof.
  intros Hreply Hno Ht Hne.
  exists (substring 0 100 t). eexists. split; [|split; [reflexivity|]].
  - unfold_handlers. fold (request_of prompt0 b64 mime).
    rewrite Hreply, Hno, Ht. destruct t as [|c t']; [congruence|].
    reflexivity.
  - split; [apply substring_prefix|].
    split; [apply substring_length|].
    split; [apply substring_whole|].
    change (String.length
              (("Gemini API Error: API returned text instead of an image: "
                ++ dquote) ++ substring 0 100 t ++ "..." ++ dquote) <= 162).
    rewrite !string_length_app, substring_length.
    pose proof (Nat.le_min_l 100 (String.length t)) as Hm.
    set (k := Nat.min 100 (String.length t)) in *. clearbody k.
    simpl. lia.
Qed.

Lemma text_excerpt_witness :
  exists excerpt message,
    outcome (editImageWithReference
               (fun _ => Genai.Resolves (text_response "I cannot draw that."))
               "a portrait" "AAAA" "image/png" sample_store)
    = Throw (JsError message)
    /\ excerpt = "I cannot draw that."
    /\ String.length message <= 162.
Proof.
  destruct (text_excerpt
              (fun _ => Genai.Resolves (text_response "I cannot draw that."))
              "a portrait" "AAAA" "image/png"
              (text_response "I cannot draw that.") "I cannot draw that."
              sample_store eq_refl eq_refl eq_refl)
    as (excerpt & message & Hout & _ & _ & _ & Hwhole & Hlen).
  - discriminate.
  - exists excerpt, message. split; [exact Hout|].
    split; [apply Hwhole; simpl; lia|exact Hlen].
Defined.

(** * Further properties of a generate attempt *)

Lemma image_of_response_nonempty response payload :
  image_of_response response = Some payload -> payload <> "".
Proof.
  unfold image_of_response.
  destruct (Genai.candidates response) as [[|c0 cs]|]; try discriminate.
  destruct (Genai.content c0) as [ct|]; [|discriminate].
  destruct (Genai.parts ct) as [ps|]; [|discriminate].
  intros H. now destruct (first_inline_data_some ps payload H)
    as (_ & _ & _ & _ & _ & _ & _ & _ & Hne).
Qed.

(** What a click leaves behind, whatever the state and the service. *)
Lemma generate_summary service st :
  let r := generate service st in
  let s := state_of r in
  outcome r = Normal tt
  /\ prompt s = prompt (ui st)
  /\ referenceImage s = referenceImage (ui st)
  /\ fileInputRef (store_of r) = fileInputRef st
  /\ reads (effects r) = []
  /\ List.length (requests (effects r)) <= 1
  /\ match referenceImage (ui st) with
     | None =>
         isLoading s = isLoading (ui st)
         /\ generatedImage s = generatedImage (ui st)
         /\ error s = Some "Please upload a reference image first."
     | Some _ =>
         isLoading s = false
         /\ ((error s = None
              /\ exists c p,
                   generatedImage s
                   = Some ("data:image/jpeg;base64," ++ String c p))
             \/ (generatedImage s = None
                 /\ exists c m, error s = Some (String c m)))
     end.
Proof.
  destruct (referenceImage (ui st)) as [img|] eqn:H.
  - generate_cases H;
      repeat (split; [first [reflexivity | assumption | simpl; lia]|]);
      try (right; split; [reflexivity|]; eexists; eexists; reflexivity).
    all: left; split; [reflexivity|].
    all: match goal with
         | Hi : image_of_response _ = Some ?p |- _ =>
             pose proof (image_of_response_nonempty _ _ Hi) as Hne;
             destruct p as [|c p']; [congruence|];
             exists c, p'; reflexivity
         end.
  - unfold_handlers. rewrite H. simpl.
    repeat (split; [first [reflexivity | assumption | simpl; lia]|]).
    repeat split.
Qed.

(** X5: a click never throws to its caller, never starts a file read,
    issues at most one request, and leaves the prompt, the reference image
    and the file input as they were. *)
Theorem generate_frame service st :
  let r := generate service st in
  outcome r = Normal tt
  /\ prompt (state_of r) = prompt (ui st)
  /\ referenceImage (state_of r) = referenceImage (ui st)
  /\ fileInputRef (store_of r) = fileInputRef st
  /\ reads (effects r) = []
  /\ List.length (requests (effects r)) <= 1.
Proof.
  destruct (generate_summary service st) as (H1 & H2 & H3 & H4 & H5 & H6 & _).
  repeat split; assumption.
Qed.

(** X6: the client only ever throws [Error] objects, so the generic
    message the shell keeps for other thrown values is never stored. *)
Theorem fallback_message_never_stored service st :
  error (state_of (generate service st))
  <> Some "An unknown error occurred.".
Proof.
  destruct (referenceImage (ui st)) as [img|] eqn:H.
  - generate_cases H; discriminate.
  - unfold_handlers. rewrite H. simpl. discriminate.
Qed.

(** X7: after a click the error is the missing-image message exactly when
    no reference image was stored; in particular a click on an enabled
    button never yields it. *)
Theorem missing_image_error_iff service st :
  (error (state_of (generate service st))
   = Some "Please upload a reference image first."
   <-> referenceImage (ui st) = None)
  /\ (button_disabled (ui st) = false ->
      error (state_of (generate service st))
      <> Some "Please upload a reference image first.").
Proof.
  assert (Hiff : error (state_of (generate service st))
                 = Some "Please upload a reference image first."
                 <-> referenceImage (ui st) = None).
  { destruct (referenceImage (ui st)) as [img|] eqn:H.
    - generate_cases H; split; discriminate.
    - unfold_handlers. rewrite H. simpl. split; reflexivity. }
  split; [exact Hiff|].
  unfold button_disabled. intros Hb He. apply Hiff in He.
  rewrite He in Hb. now rewrite orb_true_r in Hb.
Qed.

(** X8: with a reference image stored, the attempt fails with the MIME
    type error exactly when the URL splits into two parts and the pattern
    finds no type, or an empty one, in the first; no request is then
    issued. *)
Theorem mime_error_iff service st img :
  referenceImage (ui st) = Some img ->
  let r := generate service st in
  (error (state_of r) = Some "Could not determine image MIME type."
   <-> exists h p,
         split "," (previewUrl img) = [h; p]
         /\ truthy (match_colon_group_semicolon h) = false)
  /\ (error (state_of r) = Some "Could not determine image MIME type." ->
      requests (effects r) = [] /\ generatedImage (state_of r) = None
      /\ isLoading (state_of r) = false).
Proof.
  intros H. unfold_handlers. rewrite H. simpl.
  destruct (split "," (previewUrl img)) as [|h [|p [|q l]]] eqn:Hs; simpl.
  - split; [split|]; try discriminate.
    intros (h' & p' & Heq & _). discriminate Heq.
  - split; [split|]; try discriminate.
    intros (h' & p' & Heq & _). discriminate Heq.
  - destruct (match_colon_group_semicolon h) as [[|c m]|] eqn:Hm; simpl.
    + split; [split|]; auto. intros _. exists h, p. now rewrite Hm.
    + client_cases; (split; [split|]); try discriminate;
        intros (h' & p' & Heq & Ht); injection Heq as <- <-;
        rewrite Hm in Ht; discriminate Ht.
    + split; [split|]; auto. intros _. exists h, p. now rewrite Hm.
  - split; [split|]; try discriminate.
    intros (h' & p' & Heq & _). discriminate Heq.
Qed.

Lemma mime_error_iff_witness :
  let r := generate (fun _ => Genai.Resolves (image_response "BBBB"))
             headerless_store in
  error (state_of r) = Some "Could not determine image MIME type."
  /\ requests (effects r) = [].
Proof.
  pose proof (mime_error_iff
                (fun _ => Genai.Resolves (image_response "BBBB"))
                headerless_store _ eq_refl) as [_ H].
  split; [reflexivity|]. exact (proj1 (H eq_refl)).
Defined.

(** X9: once the URL is parsed, whatever message the client fails with is
    stored as the error, word for word, and the generated result is left
    unset. *)
Theorem client_failure_surfaced service st img h b64 mime message :
  referenceImage (ui st) = Some img ->
  split "," (previewUrl img) = [h; b64] ->
  match_colon_group_semicolon h = Some mime -> mime <> "" ->
  outcome (editImageWithReference service (prompt (ui st)) b64 mime st)
  = Throw (JsError message) ->
  error (state_of (generate service st)) = Some message
  /\ generatedImage (state_of (generate service st)) = None
  /\ isLoading (state_of (generate service st)) = false.
Proof.
  intros H Hs Hm Hne Hout.
  pose proof (generate_after_parse service st img h b64 mime H Hs Hm Hne) as G.
  simpl in G. rewrite Hout in G. destruct G as [Hg He].
  destruct (generate_summary service st) as (_ & _ & _ & _ & _ & _ & S).
  rewrite H in S. destruct S as [Hl _].
  repeat split; assumption.
Qed.

Lemma client_failure_surfaced_witness :
  error (state_of (generate (fun _ => Genai.Rejects (JsError "quota exceeded"))
                     sample_store))
  = Some "Gemini API Error: quota exceeded".
Proof.
  refine (proj1 (client_failure_surfaced
                   (fun _ => Genai.Rejects (JsError "quota exceeded"))
                   sample_store sample_image "data:image/png;base64" "AAAA"
                   "image/png" "Gemini API Error: quota exceeded"
                   eq_refl eq_refl eq_refl _ eq_refl)).
  discriminate.
Defined.

(** * The pattern and the data URL *)

Lemma occurrences_app c (a b : string) :
  occurrences c (a ++ b) = occurrences c a + occurrences c b.
Proof. induction a as [|x a IH]; simpl; [reflexivity|rewrite IH; lia]. Qed.

Lemma split_free sep s : occurrences sep s = 0 -> split sep s = [s].
Proof.
  induction s as [|c r IH]; simpl; [reflexivity|].
  destruct (Ascii.eqb c sep); simpl; [discriminate|].
  intros H. now rewrite IH.
Qed.

Lemma split_app_sep sep h p :
  occurrences sep h = 0 -> occurrences sep p = 0 ->
  split sep (h ++ String sep p) = [h; p].
Proof.
  intros Hh Hp. induction h as [|c r IH]; simpl in *.
  - rewrite Ascii.eqb_refl. now rewrite split_free.
  - destruct (Ascii.eqb c sep); simpl in *; [discriminate|].
    now rewrite IH.
Qed.

Lemma lazy_group_complete g rest :
  group_text g = true ->
  lazy_group_then_semicolon (g ++ String ";" rest) = Some g.
Proof.
  unfold group_text. induction g as [|c g IH]; simpl; [reflexivity|].
  intros H. apply andb_true_iff in H. destruct H as [Hc Hg].
  apply andb_true_iff in Hc. destruct Hc as [Hs Hl].
  apply negb_true_iff in Hs. apply negb_true_iff in Hl.
  rewrite Hs, Hl, (IH Hg). reflexivity.
Qed.

Lemma lazy_group_sound s g :
  lazy_group_then_semicolon s = Some g ->
  group_text g = true /\ exists rest, s = g ++ String ";" rest.
Proof.
  unfold group_text. revert g. induction s as [|c s IH]; simpl; [discriminate|].
  intros g. destruct (Ascii.eqb_spec c ";"%char) as [->|Hne].
  - intros H. injection H as <-. split; [reflexivity|now exists s].
  - destruct (is_line_terminator c) eqn:Hl; [discriminate|].
    destruct (lazy_group_then_semicolon s) as [g'|]; [|discriminate].
    simpl. intros H. injection H as <-.
    destruct (IH g' eq_refl) as [Hg [rest Hr]]. split.
    + simpl. rewrite Hl, Hg.
      destruct (Ascii.eqb_spec c ";"%char); [contradiction|reflexivity].
    + exists rest. simpl. now rewrite Hr.
Qed.

Lemma lazy_group_needs_semicolon s :
  occurrences ";" s = 0 -> lazy_group_then_semicolon s = None.
Proof.
  induction s as [|c s IH]; simpl; [reflexivity|].
  destruct (Ascii.eqb c ";"%char); simpl; [discriminate|].
  intros H. destruct (is_line_terminator c); [reflexivity|].
  now rewrite IH.
Qed.

(** X10: what the pattern extracts.  A match is the text between a colon
    and the first semicolon after it, free of line terminators; a string
    with no colon, or with no semicolon, has no match. *)
Theorem mime_match_sound s :
  (forall g, match_colon_group_semicolon s = Some g ->
     group_text g = true
     /\ exists before rest, s = before ++ String ":" (g ++ String ";" rest))
  /\ (occurrences ":" s = 0 -> match_colon_group_semicolon s = None)
  /\ (occurrences ";" s = 0 -> match_colon_group_semicolon s = None).
Proof.
  split; [|split].
  - induction s as [|c s IH]; simpl; [discriminate|].
    intros g. destruct (Ascii.eqb_spec c ":"%char) as [->|Hne].
    + destruct (lazy_group_then_semicolon s) as [g'|] eqn:Hl.
      * intros H. injection H as <-.
        destruct (lazy_group_sound s g' Hl) as [Hg [rest Hr]].
        split; [exact Hg|]. exists "", rest. simpl. now rewrite Hr.
      * intros H. destruct (IH g H) as [Hg (before & rest & Hr)].
        split; [exact Hg|]. exists (String ":" before), rest.
        simpl. now rewrite Hr.
    + intros H. destruct (IH g H) as [Hg (before & rest & Hr)].
      split; [exact Hg|]. exists (String c before), rest.
      simpl. now rewrite Hr.
  - induction s as [|c s IH]; simpl; [reflexivity|].
    destruct (Ascii.eqb c ":"%char); simpl; [discriminate|exact IH].
  - induction s as [|c s IH]; simpl; [reflexivity|].
    intros H.
    assert (Hs : occurrences ";" s = 0)
      by (destruct (Ascii.eqb c ";"%char); simpl in H; lia).
    rewrite (lazy_group_needs_semicolon s Hs), (IH Hs).
    now destruct (Ascii.eqb c ":"%char).
Qed.

(** The request of an attempt whose URL parses. *)
Lemma generate_parsed_requests service st img h b64 mime :
  referenceImage (ui st) = Some img ->
  split "," (previewUrl img) = [h; b64] ->
  match_colon_group_semicolon h = Some mime -> mime <> "" ->
  requests (effects (generate service st))
  = [request_of (prompt (ui st)) b64 mime].
Proof.
  intros H Hs Hm Hne. destruct mime as [|c m]; [congruence|].
  unfold_handlers. rewrite H. simpl. rewrite Hs. simpl. rewrite Hm. simpl.
  client_cases; reflexivity.
Qed.

(** Every request of a click comes from a stored URL that parses. *)
Lemma generate_requests_sound service st request :
  In request (requests (effects (generate service st))) ->
  exists img h b64 mime,
    referenceImage (ui st) = Some img
    /\ split "," (previewUrl img) = [h; b64]
    /\ match_colon_group_semicolon h = Some mime /\ mime <> ""
    /\ request = request_of (prompt (ui st)) b64 mime.
Proof.
  destruct (referenceImage (ui st)) as [img|] eqn:H.
  - unfold_handlers. rewrite H. simpl.
    destruct (split "," (previewUrl img)) as [|h [|p [|q l]]] eqn:Hs; simpl;
      try contradiction.
    destruct (match_colon_group_semicolon h) as [[|c m]|] eqn:Hm; simpl;
      try contradiction.
    client_cases; intros [<-|[]];
      exists img, h, p, (String c m); repeat split; auto; discriminate.
  - unfold_handlers. rewrite H. simpl. contradiction.
Qed.

(** X11: the requests of a click, in full.  With a reference image whose
    URL splits into a header and a payload and whose header yields a
    non-empty type, the click issues exactly one request, carrying the
    current prompt, that payload and that type; and every request a click
    issues arises in this way. *)
Theorem generate_requests_characterised service st :
  (forall img h b64 mime,
     referenceImage (ui st) = Some img ->
     split "," (previewUrl img) = [h; b64] ->
     match_colon_group_semicolon h = Some mime -> mime <> "" ->
     requests (effects (generate service st))
     = [request_of (prompt (ui st)) b64 mime])
  /\ forall request,
       In request (requests (effects (generate service st))) ->
       exists img h b64 mime,
         referenceImage (ui st) = Some img
         /\ split "," (previewUrl img) = [h; b64]
         /\ match_colon_group_semicolon h = Some mime /\ mime <> ""
         /\ request = request_of (prompt (ui st)) b64 mime.
Proof.
  split; [apply generate_parsed_requests|apply generate_requests_sound].
Qed.

(** A data URL of the reader's shape splits at its one comma, and the
    pattern finds its type. *)
Lemma data_url_parses mime payload :
  group_text mime = true ->
  occurrences "," mime = 0 -> occurrences "," payload = 0 ->
  split "," (data_url mime payload) = ["data:" ++ mime ++ ";base64"; payload]
  /\ match_colon_group_semicolon ("data:" ++ mime ++ ";base64") = Some mime.
Proof.
  intros Hg Hcm Hcp. split.
  - unfold data_url.
    replace ("data:" ++ mime ++ ";base64," ++ payload)
      with (("data:" ++ mime ++ ";base64") ++ String "," payload).
    + apply split_app_sep; [|exact Hcp].
      rewrite !occurrences_app, Hcm. reflexivity.
    + rewrite !string_app_assoc. reflexivity.
  - simpl. change (mime ++ ";base64") with (mime ++ String ";" "base64").
    now rewrite (lazy_group_complete mime "base64" Hg).
Qed.

(** X12: a data URL of the shape the reader produces is taken apart into
    what it was built from: for a non-empty type without comma, semicolon
    or line terminator and a payload without comma, the click issues one
    request carrying exactly that type and that payload. *)
Theorem data_url_round_trip service st f mime payload :
  referenceImage (ui st)
    = Some {| file := f; previewUrl := data_url mime payload |} ->
  mime <> "" -> group_text mime = true ->
  occurrences "," mime = 0 -> occurrences "," payload = 0 ->
  requests (effects (generate service st))
  = [request_of (prompt (ui st)) payload mime].
Proof.
  intros H Hne Hg Hcm Hcp.
  destruct (data_url_parses mime payload Hg Hcm Hcp) as [Hs Hm].
  exact (generate_parsed_requests service st _ _ payload mime H Hs Hm Hne).
Qed.

Lemma data_url_round_trip_witness :
  requests (effects (generate (fun _ => Genai.Rejects JsOther) webp_store))
  = [request_of "a portrait" "UklGRg==" "image/webp"].
Proof.
  refine (data_url_round_trip (fun _ => Genai.Rejects JsOther) webp_store
            sample_file "image/webp" "UklGRg==" eq_refl _ eq_refl eq_refl
            eq_refl).
  discriminate.
Defined.

(** * How the operations compose *)

(** X13: an edit of the prompt changes nothing but the prompt, and the
    next click sends the edited text: every request it issues carries the
    new prompt, and it issues one whenever the stored URL parses. *)
Theorem prompt_edit_then_generate service st value :
  let st' := store_of (setPrompt value st) in
  prompt (ui st') = value
  /\ referenceImage (ui st') = referenceImage (ui st)
  /\ generatedImage (ui st') = generatedImage (ui st)
  /\ isLoading (ui st') = isLoading (ui st)
  /\ error (ui st') = error (ui st)
  /\ fileInputRef st' = fileInputRef st
  /\ (forall request,
        In request (requests (effects (generate service st'))) ->
        exists b64 mime, request = request_of value b64 mime)
  /\ (forall img h b64 mime,
        referenceImage (ui st) = Some img ->
        split "," (previewUrl img) = [h; b64] ->
        match_colon_group_semicolon h = Some mime -> mime <> "" ->
        requests (effects (generate service st'))
        = [request_of value b64 mime]).
Proof.
  simpl. repeat (split; [reflexivity|]). split.
  - intros request Hin.
    destruct (generate_requests_sound service _ request Hin)
      as (img & h & b64 & mime & _ & _ & _ & _ & Hr).
    now exists b64, mime.
  - intros img h b64 mime H Hs Hm Hne.
    exact (generate_parsed_requests service
             (store_of (setPrompt value st)) img h b64 mime H Hs Hm Hne).
Qed.

(** X14: after the reference image is cleared, a click fails with the
    missing-image message and issues no request, whatever image, prompt,
    result or service there was; the result of an earlier attempt stays
    stored. *)
Theorem clear_then_generate service st :
  let cleared := store_of (clearReferenceImage st) in
  let r := generate service cleared in
  error (state_of r) = Some "Please upload a reference image first."
  /\ requests (effects r) = []
  /\ referenceImage (state_of r) = None
  /\ generatedImage (state_of r) = generatedImage (ui st)
  /\ prompt (state_of r) = prompt (ui st)
  /\ isLoading (state_of r) = isLoading (ui st)
  /\ store_of r
     = run_events [ClearReferenceImage; GenerateClick service] st.
Proof.
  unfold run_events, dispatch. unfold_handlers. simpl.
  destruct (fileInputRef st); simpl; repeat split; reflexivity.
Qed.

(** X15: a file of at most 4 MiB, the limit included, changes no state
    and starts exactly one read, of that file; with no file in the event
    nothing happens at all.  A read is started exactly when the file is
    within the limit. *)
Theorem file_within_limit_is_read f st :
  ((size f <= 4 * 1024 * 1024)%Z ->
   handleImageChange (Some f) st = (Normal tt, st, [ReadAsDataURL f]))
  /\ handleImageChange None st = (Normal tt, st, [])
  /\ (reads (effects (handleImageChange (Some f) st)) = [f]
      <-> (size f <= 4 * 1024 * 1024)%Z)
  /\ (reads (effects (handleImageChange (Some f) st)) = []
      <-> (4 * 1024 * 1024 < size f)%Z).
Proof.
  unfold_handlers. unfold MAX_FILE_SIZE.
  destruct (Z.ltb_spec (4 * 1024 * 1024) (size f)); simpl.
  - split; [lia|]. split; [reflexivity|].
    split; split; intros Hx; try discriminate Hx; try lia; reflexivity.
  - split; [reflexivity|]. split; [reflexivity|].
    split; split; intros Hx; try discriminate Hx; try lia; reflexivity.
Qed.

(** * Sessions *)

Lemma dispatch_started_within_limit e st f :
  In f (reads (effects (dispatch e st))) ->
  (size f <= 4 * 1024 * 1024)%Z.
Proof.
  destruct e as [[g|]| | | | |service]; simpl; try contradiction.
  - unfold_handlers. unfold MAX_FILE_SIZE.
    destruct (Z.ltb_spec (4 * 1024 * 1024) (size g)); simpl;
      [contradiction|]. intros [<-|[]]. assumption.
  - unfold_handlers. simpl. destruct (fileInputRef st); contradiction.
  - destruct (generate_summary service st) as (_ & _ & _ & _ & Hr & _).
    simpl in Hr. rewrite Hr. contradiction.
Qed.

Lemma reachable_invariant st started :
  reachable st started -> session_invariant st started.
Proof.
  induction 1 as [|st started e Hreach IH Hfires].
  - unfold session_invariant. simpl.
    split; [constructor|]. split; [discriminate|]. auto.
  - destruct IH as (Hstarted & Himg & Hload & Hres & Herr).
    unfold session_invariant. split.
    { apply Forall_app. split; [exact Hstarted|].
      apply Forall_forall. intros f.
      apply dispatch_started_within_limit. }
    destruct e as [[g|]| g result | | |value|service]; simpl.
    + unfold_handlers. destruct (MAX_FILE_SIZE <? size g)%Z; simpl.
      * repeat split; auto. right. eexists; eexists; reflexivity.
      * repeat split; auto.
    + repeat split; auto.
    + simpl in Hfires. unfold_handlers. simpl.
      split; [|repeat split; auto].
      intros img Heq. injection Heq as <-. simpl.
      exact (proj1 (Forall_forall _ _) Hstarted g Hfires).
    + unfold_handlers. simpl. repeat split; auto.
      right. eexists; eexists; reflexivity.
    + unfold_handlers. simpl.
      destruct (fileInputRef st); simpl; repeat split; auto; discriminate.
    + unfold_handlers. simpl. repeat split; auto.
    + destruct (generate_summary service st)
        as (_ & _ & Href & _ & _ & _ & S).
      simpl in Href, S. fold (state_of (generate service st)).
      split; [now rewrite Href|].
      destruct (referenceImage (ui st)) as [img|].
      * destruct S as [Hl [[He Hg]|[Hg He]]].
        -- split; [exact Hl|]. split; [right; exact Hg|left; exact He].
        -- split; [exact Hl|]. split; [left; exact Hg|right; exact He].
      * destruct S as (Hl & Hg & He).
        split; [now rewrite Hl|]. split; [now rewrite Hg|].
        right. rewrite He. eexists; eexists; reflexivity.
Qed.

Lemma loaded_store_reachable : reachable loaded_store [sample_file].
Proof.
  change (reachable
            (store_of (dispatch
                         (ReaderLoadEnd sample_file "data:image/png;base64,AAAA")
                         (store_of (dispatch (ImageChange (Some sample_file))
                                      initial_store))))
            (([] ++ reads (effects (dispatch (ImageChange (Some sample_file))
                                      initial_store)))
             ++ reads (effects
                         (dispatch
                            (ReaderLoadEnd sample_file
                               "data:image/png;base64,AAAA")
                            (store_of (dispatch (ImageChange (Some sample_file))
                                         initial_store)))))%list).
  apply reach_step; [apply reach_step; [apply reach_init|exact I]|].
  simpl. left. reflexivity.
Qed.

(** X16: in every session a stored reference image is at most 4 MiB: the
    only handler that stores one is the callback of a read, and a read is
    started only behind the size check. *)
Theorem stored_image_within_limit st started img :
  reachable st started ->
  referenceImage (ui st) = Some img ->
  (size (file img) <= 4 * 1024 * 1024)%Z.
Proof.
  intros Hr. destruct (reachable_invariant st started Hr) as (_ & H & _).
  apply H.
Qed.

Lemma stored_image_within_limit_witness :
  referenceImage (ui loaded_store) = Some sample_image
  /\ (size (file sample_image) <= 4 * 1024 * 1024)%Z.
Proof.
  split; [reflexivity|].
  exact (stored_image_within_limit loaded_store [sample_file] sample_image
           loaded_store_reachable eq_refl).
Defined.

(** X17: in every session the stored generated result, when there is one,
    is the text data:image/jpeg;base64, followed by a non-empty payload. *)
Theorem stored_result_is_jpeg_url st started url :
  reachable st started ->
  generatedImage (ui st) = Some url ->
  exists payload,
    url = "data:image/jpeg;base64," ++ payload /\ payload <> "".
Proof.
  intros Hr Hg.
  destruct (reachable_invariant st started Hr) as (_ & _ & _ & H & _).
  destruct H as [H|(c & p & H)]; rewrite Hg in H; [discriminate|].
  injection H as ->. exists (String c p). split; [reflexivity|discriminate].
Qed.

Lemma generated_store_reachable : reachable generated_store [sample_file].
Proof.
  change (reachable generated_store
            ([sample_file]
             ++ reads (effects
                  (dispatch
                     (GenerateClick
                        (fun _ => Genai.Resolves (image_response "BBBB")))
                     loaded_store)))%list).
  apply reach_step; [apply loaded_store_reachable|exact I].
Qed.

Lemma stored_result_is_jpeg_url_witness :
  generatedImage (ui generated_store) = Some "data:image/jpeg;base64,BBBB"
  /\ exists payload,
       "data:image/jpeg;base64,BBBB" = "data:image/jpeg;base64," ++ payload
       /\ payload <> "".
Proof.
  split; [reflexivity|].
  exact (stored_result_is_jpeg_url generated_store [sample_file]
           "data:image/jpeg;base64,BBBB" generated_store_reachable eq_refl).
Defined.

(** X18: whatever the state, the output panel shows at most one of the
    error box, the generated image and the placeholder, and exactly one of
    them when the loading flag is off; the image and the placeholder are
    hidden while the spinner is shown and whenever the error box is. *)
Theorem output_panel_blocks s :
  blocks_shown (render s) <= 1
  /\ (isLoading s = false -> blocks_shown (render s) = 1)
  /\ (spinner (render s) = true ->
      result_image (render s) = None /\ placeholder (render s) = false)
  /\ (error_box (render s) <> None ->
      result_image (render s) = None /\ placeholder (render s) = false).
Proof.
  unfold blocks_shown, render; simpl.
  destruct (isLoading s), (error s) as [[|c m]|],
    (generatedImage s) as [[|c' p]|]; simpl;
    repeat split; intros; try lia; try congruence.
Qed.

(** X19: between the events of a session the spinner is off and the panel
    shows what is stored: the error when one is set, otherwise the generated
    image when one is stored, otherwise the placeholder.  No stored error
    or result is hidden by being an empty string. *)
Theorem session_panel_faithful st started :
  reachable st started ->
  let v := render (ui st) in
  spinner v = false
  /\ error_box v = error (ui st)
  /\ (error (ui st) = None ->
      result_image v = generatedImage (ui st)
      /\ (placeholder v = true <-> generatedImage (ui st) = None)).
Proof.
  intros Hr.
  destruct (reachable_invariant st started Hr) as (_ & _ & Hl & Hg & He).
  unfold render; simpl. rewrite Hl. split; [reflexivity|]. split.
  - destruct He as [->|(c & m & ->)]; reflexivity.
  - intros Hn. rewrite Hn. simpl.
    destruct Hg as [->|(c & p & ->)]; simpl; split;
      try reflexivity; split; intros; congruence.
Qed.

Lemma session_panel_faithful_witness :
  spinner (render (ui generated_store)) = false
  /\ result_image (render (ui generated_store))
     = Some "data:image/jpeg;base64,BBBB".
Proof.
  pose proof (session_panel_faithful generated_store [sample_file]
                generated_store_reachable) as H.
  destruct H as (Hs & _ & Hi). split; [exact Hs|].
  exact (proj1 (Hi eq_refl)).
Defined.

(** X20: an attempt wipes what the previous one left: with a reference
    image stored, the state after a click depends only on the prompt, the
    reference image and the answer of the service, not on the error, the
    result or the loading flag it started from.  Repeating the click with
    the same answer therefore gives the same state again. *)
Theorem generate_wipes_previous_outcome service st1 st2 img :
  referenceImage (ui st1) = Some img ->
  referenceImage (ui st2) = Some img ->
  prompt (ui st1) = prompt (ui st2) ->
  state_of (generate service st1) = state_of (generate service st2)
  /\ state_of (generate service (store_of (generate service st1)))
     = state_of (generate service st1).
Proof.
  intros H1 H2 Hp.
  assert (Hsame : forall a b,
             referenceImage (ui a) = Some img ->
             referenceImage (ui b) = Some img ->
             prompt (ui a) = prompt (ui b) ->
             state_of (generate service a) = state_of (generate service b)).
  { intros a b Ha Hb Hab. unfold_handlers. rewrite Ha, Hb, Hab. simpl.
    parse_cases; client_cases; rewrite ?Ha, ?Hb, ?Hab; reflexivity. }
  split; [now apply Hsame|].
  destruct (generate_summary service st1) as (_ & Hpr & Href & _).
  simpl in Hpr, Href. apply Hsame.
  - unfold state_of in Href. now rewrite Href.
  - exact H1.
  - exact Hpr.
Qed.

Lemma generate_wipes_previous_outcome_witness :
  state_of (generate (fun _ => Genai.Resolves (image_response "BBBB"))
              generated_store)
  = state_of (generate (fun _ => Genai.Resolves (image_response "BBBB"))
                loaded_store).
Proof.
  exact (proj1 (generate_wipes_previous_outcome
                  (fun _ => Genai.Resolves (image_response "BBBB"))
                  generated_store loaded_store sample_image
                  eq_refl eq_refl eq_refl)).
Defined.

(** X21: from the file to the image.  A file within the limit is selected,
    its read completes with a data URL of the reader's shape, and a click
    follows that the service answers with an image in its first candidate:
    the file and its URL are stored, one request carries the type and the
    payload of that URL with the prompt, and the session ends with the
    JPEG data URL of the returned payload stored, no error, and the loading
    flag off, whatever error or result the session started with. *)
Theorem select_load_generate service st f mime payload response result :
  (size f <= 4 * 1024 * 1024)%Z ->
  mime <> "" -> group_text mime = true ->
  occurrences "," mime = 0 -> occurrences "," payload = 0 ->
  service (request_of (prompt (ui st)) payload mime)
    = Genai.Resolves response ->
  image_of_response response = Some result ->
  let loaded :=
    run_events [ ImageChange (Some f);
                 ReaderLoadEnd f (data_url mime payload) ] st in
  let r := generate service loaded in
  referenceImage (state_of r)
    = Some {| file := f; previewUrl := data_url mime payload |}
  /\ requests (effects r) = [request_of (prompt (ui st)) payload mime]
  /\ generatedImage (state_of r) = Some ("data:image/jpeg;base64," ++ result)
  /\ error (state_of r) = None
  /\ isLoading (state_of r) = false.
Proof.
  intros Hsize Hne Hg Hcm Hcp Hreply Himage loaded r.
  destruct (data_url_parses mime payload Hg Hcm Hcp) as [Hs Hm].
  assert (Hloaded :
            referenceImage (ui loaded)
            = Some {| file := f; previewUrl := data_url mime payload |}
            /\ prompt (ui loaded) = prompt (ui st)).
  { subst loaded. unfold run_events, dispatch.
    rewrite (acceptable_file_read f st Hsize). split; reflexivity. }
  destruct Hloaded as [Href Hprompt]. subst r. clearbody loaded.
  destruct (generate_summary service loaded) as (_ & _ & Hkeep & _ & _ & _ & S).
  simpl in Hkeep, S. rewrite Href in S. destruct S as [Hl _].
  pose proof (generate_parsed_requests service loaded _ _ payload mime
                Href Hs Hm Hne) as Hreq.
  pose proof (generate_after_parse service loaded _ _ payload mime
                Href Hs Hm Hne) as G.
  simpl in G. rewrite Hprompt in G, Hreq.
  assert (Hout : outcome (editImageWithReference service (prompt (ui st))
                            payload mime loaded) = Normal result).
  { unfold_handlers. fold (request_of (prompt (ui st)) payload mime).
    rewrite Hreply, Himage. reflexivity. }
  rewrite Hout in G. destruct G as [Hgen Herr].
  split; [now rewrite Hkeep|]. repeat split; assumption.
Qed.

Lemma select_load_generate_witness :
  let service := fun _ : Genai.Request =>
                   Genai.Resolves (image_response "BBBB") in
  let r := generate service
             (run_events [ ImageChange (Some sample_file);
                           ReaderLoadEnd sample_file
                             (data_url "image/png" "AAAA") ]
                initial_store) in
  generatedImage (state_of r) = Some "data:image/jpeg;base64,BBBB"
  /\ error (state_of r) = None.
Proof.
  pose proof (select_load_generate
                (fun _ => Genai.Resolves (image_response "BBBB"))
                initial_store sample_file "image/png" "AAAA"
                (image_response "BBBB") "BBBB") as H.
  simpl in H. destruct H as (_ & _ & Hg & He & _);
    try reflexivity; try lia; try discriminate.
  split; [exact Hg|exact He].
Defined.
